(** * Mood rotation selector and draggable pipeline diagram

    A shallow embedding of the two TypeScript sources of the site:

    - the mood catalog with [getRandomMoodImporter] (module [Moods]);
    - the interactive SVG flow of [Augest8.tsx]: node layout, the adaptive
      link router [buildAdaptivePath] and the pointer-drag handlers (module
      [Augest8]).

    JavaScript numbers are IEEE 754 binary64 values; the diagram is therefore
    modelled over Rocq's primitive [float], whose operations are the binary64
    ones.  The selector uses numbers only to draw an array index; there the
    value of [Math.random()] is a rational of [0, 1) and the product and the
    floor are taken exactly. *)

From Stdlib Require Import List ZArith QArith Qround Bool Lia String.
From Stdlib Require Import DecimalString.
From Stdlib Require Import Floats.
Import ListNotations.

Set Warnings "-inexact-float".


(* ================================================================== *)
(** * The rotation selector *)
(* ================================================================== *)

Module Moods.

(** What a call does within a bounded number of loop iterations: it returns
    normally, throws, or is still looping when the bound is reached. *)
Inductive outcome (A : Type) : Type :=
| Returns (a : A)
| Throws
| StillLooping.
Arguments Returns {A} a.
Arguments Throws {A}.
Arguments StillLooping {A}.

(** Process-wide state of the module: the [isFirstCall] flag, and how many
    values [Math.random] has handed out so far. *)
Record State : Type := mkState { isFirstCall : bool; drawn : nat }.

(** The state right after the module has been loaded. *)
Definition initial : State := mkState true 0.

Section Selector.

(** [MoodImporter] values are function objects: [===] on them is reference
    identity, which is decidable. *)
Variable MoodImporter : Type.
Variable same_ref : forall a b : MoodImporter, {a = b} + {a <> b}.

(** A JavaScript value that the selector handles: an importer, or
    [undefined] (an omitted argument, an array read out of range). *)
Inductive value : Type :=
| undefined
| importer (f : MoodImporter).

Definition strict_eq (a b : value) : bool :=
  match a, b with
  | undefined, undefined => true
  | importer f, importer g => if same_ref f g then true else false
  | _, _ => false
  end.

Variable allMoodImporters : list MoodImporter.

(** [Math.random()]: the k-th value handed out since process start. *)
Variable Math_random : nat -> Q.

(** [arr[i]]: reading outside [0 .. length-1] yields [undefined]. *)
Definition index (arr : list MoodImporter) (i : Z) : value :=
  if (i <? 0)%Z then undefined
  else match nth_error arr (Z.to_nat i) with
       | Some f => importer f
       | None => undefined
       end.

Definition length_ (arr : list MoodImporter) : Z := Z.of_nat (List.length arr).

(** [allMoodImporters[Math.floor(Math.random() * allMoodImporters.length)]]
    with the k-th random value. *)
Definition draw (k : nat) : value :=
  index allMoodImporters
        (Qfloor (Math_random k * inject_Z (length_ allMoodImporters))).

(** The [do ... while (newImporter === current)] loop; [fuel] bounds the
    number of times the body runs, [k] counts the random values used. *)
Fixpoint draw_loop (fuel : nat) (current : value) (k : nat)
  : outcome (value * nat) :=
  match fuel with
  | O => StillLooping
  | S fuel' =>
      let newImporter := draw k in
      if strict_eq newImporter current
      then draw_loop fuel' current (S k)
      else Returns (newImporter, S k)
  end.

Definition getRandomMoodImporter (fuel : nat) (current : value) (st : State)
  : outcome (value * State) :=
  if isFirstCall st then
    Returns (index allMoodImporters (length_ allMoodImporters - 1),
             mkState false (drawn st))
  else if (length_ allMoodImporters <=? 1)%Z then
    Returns (index allMoodImporters 0, st)
  else
    match draw_loop fuel current (drawn st) with
    | Returns (newImporter, k) =>
        Returns (newImporter, mkState (isFirstCall st) k)
    | Throws => Throws
    | StillLooping => StillLooping
    end.

(** A run of successive calls, each with its own [current] argument and
    loop bound; the results are collected in call order. *)
Fixpoint calls (cs : list (nat * value)) (st : State)
  : outcome (list value * State) :=
  match cs with
  | [] => Returns ([], st)
  | (fuel, current) :: cs' =>
      match getRandomMoodImporter fuel current st with
      | Returns (v, st') =>
          match calls cs' st' with
          | Returns (vs, st'') => Returns (v :: vs, st'')
          | Throws => Throws
          | StillLooping => StillLooping
          end
      | Throws => Throws
      | StillLooping => StillLooping
      end
  end.

End Selector.

Arguments undefined {MoodImporter}.
Arguments importer {MoodImporter} f.
Arguments index {MoodImporter} arr i.
Arguments length_ {MoodImporter} arr.
Arguments strict_eq {MoodImporter} same_ref a b.
Arguments draw {MoodImporter} allMoodImporters Math_random k.
Arguments draw_loop {MoodImporter} same_ref allMoodImporters Math_random fuel current k.
Arguments getRandomMoodImporter {MoodImporter} same_ref allMoodImporters Math_random fuel current st.
Arguments calls {MoodImporter} same_ref allMoodImporters Math_random cs st.

(** The catalog of the source: one importer per mood module. *)
Inductive mood : Type := July17 | July18 | July20 | July25 | Augest8.

Definition mood_eq_dec (a b : mood) : {a = b} + {a <> b}.
Proof. decide equality. Defined.

Definition allMoodImporters : list mood :=
  [July17; July18; July20; July25; Augest8].

(** A sample run of [Math.random]: 0.9 twice, then 0.3 for ever. *)
Definition sample_random (k : nat) : Q :=
  if (k <? 2)%nat then 9 # 10 else 3 # 10.

End Moods.

(* ================================================================== *)
(** * The draggable pipeline diagram of [Augest8.tsx] *)
(* ================================================================== *)

Module Augest8.

Local Open Scope float_scope.

(** ** Numbers: the parts of [Math] that the component uses *)

Definition Math_abs (a : float) : float := abs a.

(** [a >= b]: false as soon as one side is NaN. *)
Definition ge (a b : float) : bool := b <=? a.

Definition is_pos_zero (a : float) : bool := is_zero a && negb (get_sign a).
Definition is_neg_zero (a : float) : bool := is_zero a && get_sign a.

(** One step of [Math.max]: NaN wins, +0 is above -0. *)
Definition max_step (highest number : float) : float :=
  if is_nan number then nan
  else if is_pos_zero number && is_neg_zero highest then number
  else if highest <? number then number
  else highest.

Definition min_step (lowest number : float) : float :=
  if is_nan number then nan
  else if is_neg_zero number && is_pos_zero lowest then number
  else if number <? lowest then number
  else lowest.

Definition Math_max (args : list float) : float :=
  fold_left max_step args neg_infinity.

Definition Math_min (args : list float) : float :=
  fold_left min_step args infinity.

(** ** Data *)

Inductive NodeId : Type :=
| appRender | macBypass | afxdp | decoder
| displayCtrl | uiOverlay | composition | panel.

Definition NodeId_eqb (a b : NodeId) : bool :=
  match a, b with
  | appRender, appRender | macBypass, macBypass | afxdp, afxdp
  | decoder, decoder | displayCtrl, displayCtrl | uiOverlay, uiOverlay
  | composition, composition | panel, panel => true
  | _, _ => false
  end.

Inductive Icon : Type :=
| click | swap | blocks | xdp | scan | monitor | layers | stack.

Inductive Shape : Type := circle | square.

Inductive Neon : Type := magenta | cyan | none.

Record FlowNode : Type := mkFlowNode {
  id : NodeId;
  title : string;
  label : string;
  subtitle : option string;
  x : float;
  y : float;
  w : float;
  h : float;
  icon : Icon;
  shape : option Shape;
  neon : option Neon;
  iconScale : option float
}.

Record FlowLink : Type := mkFlowLink {
  from : NodeId;
  to : NodeId;
  dashed : option bool;
  color : option string;
  excluded : option bool
}.

Definition vbWidth : float := 1024 + 0.
Definition vbHeight : float := 768 + 0.

(** The canonical layout. *)
Definition initialNodes : list FlowNode :=
  [ mkFlowNode appRender "App Render Trigger" "App Trigger" (Some "sender app"%string)
      10 100 156 176 click (Some square) (Some magenta) (Some 1.2);
    mkFlowNode macBypass "Wi‑Fi MAC Bypass" "MAC Bypass" (Some "MAC path"%string)
      20 350 136 156 swap None None None;
    mkFlowNode afxdp "AF_XDP Zero‑Copy" "AF_XDP" (Some "user‑space"%string)
      220 350 136 156 xdp None None None;
    mkFlowNode decoder "Line‑based Decoder" "Line Decoder" (Some "decode"%string)
      420 350 136 156 scan None None None;
    mkFlowNode displayCtrl "Display Controller" "Display Ctrl" (Some "KMS plane"%string)
      620 350 136 156 blocks None None None;
    mkFlowNode uiOverlay "UI Overlay (GPU)" "Independent UI" (Some "UI plane (GPU)"%string)
      720 550 136 156 layers None None None;
    mkFlowNode composition "Final Composition" "Composition" (Some "composer"%string)
      820 350 136 156 stack None None None;
    mkFlowNode panel "Display Panel" "Panel" (Some "panel"%string)
      810 100 156 176 monitor (Some square) (Some cyan) (Some 1.2) ].

Definition links : list FlowLink :=
  [ mkFlowLink appRender macBypass None None (Some true);
    mkFlowLink macBypass afxdp None None None;
    mkFlowLink afxdp decoder None None None;
    mkFlowLink decoder displayCtrl None None None;
    mkFlowLink displayCtrl composition None None None;
    mkFlowLink uiOverlay composition None None (Some true);
    mkFlowLink composition panel None None None ].

(** ** Link routing *)

Definition centerOf (n : FlowNode) : float * float :=
  (x n + w n / 2, y n + h n / 2).

(** The local variables of one run of [buildAdaptivePath], under the names
    they have in the source. *)
Record Route : Type := mkRoute {
  horizontal : bool;
  sx : float; sy : float; sNx : float; sNy : float;
  txa : float; tya : float; tNx : float; tNy : float;
  dist : float;
  k : float;
  c1x : float; c1y : float;
  c2x : float; c2y : float
}.

Section Routing.

(** [Math.hypot] is specified exactly on infinities, NaN and zeros; on
    other arguments the language asks for an implementation-approximated
    square root of the sum of squares, left open here. *)
Variable hypot_approx : float -> float -> float.

Definition Math_hypot (a b : float) : float :=
  if is_infinity a || is_infinity b then infinity
  else if is_nan a || is_nan b then nan
  else if is_zero a && is_zero b then 0
  else hypot_approx a b.

(** [Number::toString], as used by the template literal. *)
Variable toString : float -> string.

Definition route (from_ to_ : FlowNode) : Route :=
  let '(fx, fy) := centerOf from_ in
  let '(tx, ty) := centerOf to_ in
  let dx := tx - fx in
  let dy := ty - fy in
  let horizontal := ge (Math_abs dx) (Math_abs dy) in
  (* Source anchor on the side facing the target *)
  let '(sx, sy, sNx, sNy) :=
    if horizontal then
      if ge dx 0 then (x from_ + w from_, fy, 1, 0)
      else (x from_, fy, -1, 0)
    else
      if ge dy 0 then (fx, y from_ + h from_, 0, 1)
      else (fx, y from_, 0, -1) in
  (* Target anchor on the side facing the source *)
  let '(txa, tya, tNx, tNy) :=
    if horizontal then
      if ge dx 0 then (x to_, ty, -1, 0)
      else (x to_ + w to_, ty, 1, 0)
    else
      if ge dy 0 then (tx, y to_, 0, -1)
      else (tx, y to_ + h to_, 0, 1) in
  (* Control distance proportional to segment length, clamped *)
  let dist := Math_hypot (txa - sx) (tya - sy) in
  let k := Math_min [120; Math_max [40; dist / 3]] in
  let c1x := sx + sNx * k in
  let c1y := sy + sNy * k in
  let c2x := txa + tNx * k in
  let c2y := tya + tNy * k in
  mkRoute horizontal sx sy sNx sNy txa tya tNx tNy dist k c1x c1y c2x c2y.

(** [`M ${sx} ${sy} C ${c1x} ${c1y}, ${c2x} ${c2y}, ${txa} ${tya}`] *)
Definition buildAdaptivePath (from_ to_ : FlowNode) : string :=
  let r := route from_ to_ in
  ("M " ++ toString (sx r) ++ " " ++ toString (sy r)
   ++ " C " ++ toString (c1x r) ++ " " ++ toString (c1y r)
   ++ ", " ++ toString (c2x r) ++ " " ++ toString (c2y r)
   ++ ", " ++ toString (txa r) ++ " " ++ toString (tya r))%string.

(** *** The routing algorithm in the words of its description

    Rectangles, sides, side midpoints and outward normals; the connection
    is classified, a side of each rectangle is picked, and the control
    points are pushed out along the normals by a clamped distance. *)

Inductive Side : Type := Left | Right | Top | Bottom.

Definition center (r : FlowNode) : float * float :=
  (x r + w r / 2, y r + h r / 2).

Definition midpoint (r : FlowNode) (s : Side) : float * float :=
  match s with
  | Left => (x r, y r + h r / 2)
  | Right => (x r + w r, y r + h r / 2)
  | Top => (x r + w r / 2, y r)
  | Bottom => (x r + w r / 2, y r + h r)
  end.

Definition normal (s : Side) : float * float :=
  match s with
  | Left => (-1, 0)
  | Right => (1, 0)
  | Top => (0, -1)
  | Bottom => (0, 1)
  end.

Definition opposite (s : Side) : Side :=
  match s with
  | Left => Right | Right => Left | Top => Bottom | Bottom => Top
  end.

Definition classify_horizontal (A B : FlowNode) : bool :=
  let dx := fst (center B) - fst (center A) in
  let dy := snd (center B) - snd (center A) in
  ge (abs dx) (abs dy).

(** The side of [A] that faces [B]. *)
Definition exitSide (A B : FlowNode) : Side :=
  let dx := fst (center B) - fst (center A) in
  let dy := snd (center B) - snd (center A) in
  if classify_horizontal A B
  then if ge dx 0 then Right else Left
  else if ge dy 0 then Bottom else Top.

(** The side of [B] that faces back toward [A]. *)
Definition entrySide (A B : FlowNode) : Side := opposite (exitSide A B).

Definition distance (p q : float * float) : float :=
  Math_hypot (fst q - fst p) (snd q - snd p).

Definition clamp (v lo hi : float) : float :=
  Math_min [hi; Math_max [lo; v]].

Definition offset_along (p n : float * float) (k : float) : float * float :=
  (fst p + fst n * k, snd p + snd n * k).

(** Exit point, first control point, second control point, entry point. *)
Definition resolvePath (A B : FlowNode)
  : (float * float) * (float * float) * (float * float) * (float * float) :=
  let exit := midpoint A (exitSide A B) in
  let entry := midpoint B (entrySide A B) in
  let k := clamp (distance exit entry / 3) 40 120 in
  (exit,
   offset_along exit (normal (exitSide A B)) k,
   offset_along entry (normal (entrySide A B)) k,
   entry).

End Routing.

(** A square root of the sum of squares taken naively in binary64. *)
Definition naive_hypot (a b : float) : float := sqrt (a * a + b * b).

(** ** Centering offset *)

Definition offsetX : float :=
  let minX := Math_min (map (fun n => x n) initialNodes) in
  let maxX := Math_max (map (fun n => x n + w n) initialNodes) in
  let contentWidth := maxX - minX in
  (vbWidth - contentWidth) / 2 - minX.

(** ** Dragging *)

(** [draggingRef.current]; [None] stands for [id: null]. *)
Record Dragging : Type := mkDragging {
  drag_id : option NodeId;
  drag_dx : float;
  drag_dy : float
}.

(** A pointer event as the handlers see it: the point that [clientToSvg]
    yields for it, in the coordinates of the SVG view box. *)
Record Point : Type := mkPoint { pt_x : float; pt_y : float }.

(** The mutable state of a mounted component. *)
Record Model : Type := mkModel {
  nodes : list FlowNode;
  draggingRef : Dragging;
  hovered : option NodeId
}.

Definition initialModel : Model :=
  mkModel initialNodes (mkDragging None 0 0) None.

(** [{ ...n, x: nx, y: ny }] *)
Definition moved (n : FlowNode) (nx ny : float) : FlowNode :=
  mkFlowNode (id n) (title n) (label n) (subtitle n)
             nx ny (w n) (h n)
             (icon n) (shape n) (neon n) (iconScale n).

Definition handleMove (pt : Point) (m : Model) : Model :=
  let drag := draggingRef m in
  match drag_id drag with
  | None => m
  | Some dragged =>
      let localX := pt_x pt - offsetX in
      mkModel
        (map (fun n =>
                if NodeId_eqb (id n) dragged
                then moved n (localX - drag_dx drag) (pt_y pt - drag_dy drag)
                else n)
             (nodes m))
        (draggingRef m) (hovered m)
  end.

(** What [handleMove] does to one node while [dragged] is grabbed: the
    function it maps over the nodes. *)
Definition dragStep (drag : Dragging) (dragged : NodeId) (pt : Point)
           (n : FlowNode) : FlowNode :=
  if NodeId_eqb (id n) dragged
  then moved n (pt_x pt - offsetX - drag_dx drag) (pt_y pt - drag_dy drag)
  else n.

Definition handleUp (m : Model) : Model :=
  mkModel (nodes m) (mkDragging None 0 0) (hovered m).

(** The [onPointerDown] handler of the group rendered for node [n]. *)
Definition onPointerDown (n : FlowNode) (start : Point) (m : Model) : Model :=
  mkModel (nodes m)
          (mkDragging (Some (id n))
                      (pt_x start - (x n + offsetX))
                      (pt_y start - y n))
          (hovered m).

(** Pointer events reaching the component. *)
Inductive Event : Type :=
| PointerDown (n : FlowNode) (start : Point)
| PointerMove (pt : Point)
| PointerUp.

Definition handle (m : Model) (e : Event) : Model :=
  match e with
  | PointerDown n start => onPointerDown n start m
  | PointerMove pt => handleMove pt m
  | PointerUp => handleUp m
  end.

Definition is_down (e : Event) : bool :=
  match e with PointerDown _ _ => true | _ => false end.

(** [nodes.find((n) => n.id === i)] *)
Definition findNode (ns : list FlowNode) (i : NodeId) : option FlowNode :=
  find (fun n => NodeId_eqb (id n) i) ns.

(** The path drawn for a link at render time; [None] when an endpoint is
    not among the nodes (the source then fails on [undefined]). *)
Definition linkPath (hypot_approx : float -> float -> float)
           (toString : float -> string) (m : Model) (l : FlowLink)
  : option string :=
  match findNode (nodes m) (from l), findNode (nodes m) (to l) with
  | Some a, Some b => Some (buildAdaptivePath hypot_approx toString a b)
  | _, _ => None
  end.

(** The rectangle of a node. *)
Definition rect (n : FlowNode) : float * float * float * float :=
  (x n, y n, w n, h n).

(** Everything of a node but its position. *)
Definition besides_position (n : FlowNode) :=
  (id n, title n, label n, subtitle n, w n, h n,
   icon n, shape n, neon n, iconScale n).

(** ** Sample inputs *)

(** A printer for the examples. Whole numbers print as JavaScript prints
    them (below 10^21); any other finite value prints as its binary64
    mantissa and exponent. *)
Definition dec (z : Z) : string := NilZero.string_of_int (Z.to_int z).

Definition sample_toString (f : float) : string :=
  match Prim2SF f with
  | S754_nan => "NaN"
  | S754_infinity false => "Infinity"
  | S754_infinity true => "-Infinity"
  | S754_zero _ => "0"
  | S754_finite s m e =>
      let z := if s then Z.neg m else Z.pos m in
      if (0 <=? e)%Z then dec (z * 2 ^ e)
      else if (Z.pos m mod 2 ^ (- e) =? 0)%Z then dec (z / 2 ^ (- e))
      else (dec z ++ "p" ++ dec e)%string
  end.

(** The two rectangles of the worked example, carried by the end nodes of
    the diagram. *)
Definition exampleA : FlowNode :=
  mkFlowNode appRender "App Render Trigger" "App Trigger" None
             0 100 156 176 click None None None.

Definition exampleB : FlowNode :=
  mkFlowNode panel "Display Panel" "Panel" None
             810 100 156 176 monitor None None None.

(** A rectangle with finite coordinates whose centre overflows. *)
Definition farAway : FlowNode :=
  mkFlowNode uiOverlay "UI Overlay (GPU)" "Independent UI" None
             1.5e308 0 1e308 10 layers None None None.

(** The node drawn for [i] in model [m] ([exampleA] when [i] is missing). *)
Definition nodeOf (m : Model) (i : NodeId) : FlowNode :=
  match findNode (nodes m) i with
  | Some n => n
  | None => exampleA
  end.

(** Grab [appRender] at (50, 150), drag it to (40.1, 150) and release. *)
Definition afterFirstDrag : Model :=
  fold_left handle
    [ PointerDown (nodeOf initialModel appRender) (mkPoint 50 150);
      PointerMove (mkPoint 40.1 150);
      PointerUp ]
    initialModel.

(** Grab [uiOverlay] and drag it away, with [decoder] hovered: the session
    is still open. *)
Definition midDrag : Model :=
  let m := fold_left handle
             [ PointerDown (nodeOf initialModel uiOverlay) (mkPoint 800 600);
               PointerMove (mkPoint 650.5 480.25) ]
             initialModel in
  mkModel (nodes m) (draggingRef m) (Some decoder).

(** ** Node badges

    What the render pass computes for each node before drawing it. *)

(** [Math.round]: the nearest integer, ties toward +Infinity; NaN,
    infinities and zeros are returned as they are, and a result of zero keeps
    the sign of the argument. The value [z * 2^e] of a finite float is
    rounded exactly, as [floor (z * 2^e + 1/2)]. *)
Definition Math_round (f : float) : float :=
  match Prim2SF f with
  | S754_finite s m e =>
      if (0 <=? e)%Z then f
      else
        let z := if s then Z.neg m else Z.pos m in
        let n := ((2 * z + 2 ^ (- e)) / 2 ^ (1 - e))%Z in
        SF2Prim (binary_normalize prec emax n 0 s)
  | _ => f
  end.

(** [n.iconScale ?? 1] *)
Definition iconScale_or_1 (n : FlowNode) : float :=
  match iconScale n with
  | Some s => s
  | None => 1
  end.

Record Badge : Type := mkBadge {
  iconSize : float;
  circleRadius : float;
  centerX : float;
  centerY : float;
  labelY : float
}.

Definition badge (n : FlowNode) : Badge :=
  let iconSize := Math_round (100 * iconScale_or_1 n) in
  let circleRadius :=
    Math_max [iconSize / 2 + 6; Math_min [w n; h n] / 2 - 4] in
  let centerX := x n + w n / 2 in
  let centerY := y n + h n / 2 - 10 in
  let labelY := Math_min [y n + h n + 6; centerY + iconSize / 2 + 48] in
  mkBadge iconSize circleRadius centerX centerY labelY.

End Augest8.

(* ================================================================== *)
(** * Facts about the selector *)
(* ================================================================== *)

Section SelectorFacts.

Import Moods.

Context {MoodImporter : Type}.
Variable same_ref : forall a b : MoodImporter, {a = b} + {a <> b}.




Lemma index_last (l : list MoodImporter) (f : MoodImporter) :
  index (l ++ [f]) (length_ (l ++ [f]) - 1) = importer f.
Proof.
  unfold index, length_. rewrite length_app. simpl.
  destruct (_ <? 0)%Z eqn:E; [apply Z.ltb_lt in E; lia|].
  replace (Z.to_nat (Z.of_nat (List.length l + 1) - 1)) with (List.length l) by lia.
  rewrite nth_error_app2 by lia. rewrite Nat.sub_diag. reflexivity.
Qed.


Variable catalog : list MoodImporter.
Variable rnd : nat -> Q.





End SelectorFacts.


(** Once the flag is down, a call leaves it down. *)
Lemma flag_stays_down
      {MoodImporter : Type}
      (same_ref : forall a b : MoodImporter, {a = b} + {a <> b})
      (catalog : list MoodImporter) (rnd : nat -> Q)
      (fuel : nat) (current : Moods.value MoodImporter)
      (st : Moods.State) v st' :
  Moods.isFirstCall st = false ->
  Moods.getRandomMoodImporter same_ref catalog rnd fuel current st
  = Moods.Returns (v, st') ->
  Moods.isFirstCall st' = false.
Proof.
  unfold Moods.getRandomMoodImporter. intros Hf H. rewrite Hf in H.
  destruct (_ <=? 1)%Z.
  - inversion H; subst. exact Hf.
  - destruct (Moods.draw_loop _ _ _ _ _ _) as [[v0 k]| |]; try discriminate.
    inversion H; subst. reflexivity.
Qed.

Lemma flag_stays_down_calls
      {MoodImporter : Type}
      (same_ref : forall a b : MoodImporter, {a = b} + {a <> b})
      (catalog : list MoodImporter) (rnd : nat -> Q)
      (cs : list (nat * Moods.value MoodImporter)) :
  forall (st : Moods.State) vs st',
    Moods.isFirstCall st = false ->
    Moods.calls same_ref catalog rnd cs st = Moods.Returns (vs, st') ->
    Moods.isFirstCall st' = false.
Proof.
  induction cs as [|[fuel current] cs IH]; intros st vs st' Hf H; simpl in H.
  - inversion H; subst. exact Hf.
  - destruct (Moods.getRandomMoodImporter _ _ _ _ _ _) as [[v st1]| |] eqn:E;
      try discriminate.
    destruct (Moods.calls _ _ _ _ _) as [[vs1 st2]| |] eqn:E2; try discriminate.
    inversion H; subst.
    eapply IH; [|exact E2]. eapply flag_stays_down; eassumption.
Qed.



(** With the sample random run and [current = Augest8], the draws are
    Augest8, Augest8, July18: the third one is returned. *)
Example selectNext_sample :
  Moods.getRandomMoodImporter Moods.mood_eq_dec Moods.allMoodImporters
    Moods.sample_random 3 (Moods.importer Moods.Augest8)
    (Moods.mkState false 0)
  = Moods.Returns (Moods.importer Moods.July18, Moods.mkState false 3)
  /\ Moods.getRandomMoodImporter Moods.mood_eq_dec Moods.allMoodImporters
       Moods.sample_random 2 (Moods.importer Moods.Augest8)
       (Moods.mkState false 0)
     = Moods.StillLooping.
Proof. split; reflexivity. Qed.

(** Why the bound matters: when every entry of the catalog is [current]
    itself (the same importer listed twice), no draw ever differs from it and
    the loop goes on for ever. *)
Example repeated_entry_keeps_looping :
  forall fuel k,
    Moods.draw_loop Moods.mood_eq_dec [Moods.July17; Moods.July17]
      Moods.sample_random fuel (Moods.importer Moods.July17) k
    = Moods.StillLooping.
Proof.
  induction fuel as [|fuel IH]; intro k; simpl; [reflexivity|].
  assert (D : Moods.draw [Moods.July17; Moods.July17] Moods.sample_random k
              = Moods.importer Moods.July17)
    by (unfold Moods.draw, Moods.sample_random;
        destruct (k <? 2)%nat; reflexivity).
  rewrite D. simpl. apply IH.
Qed.

(** C2: the first call after process start returns the last entry of the
    catalog whatever [current] is, and lowers [isFirstCall]; from then on the
    flag stays down through any run of calls, so the first-call branch is
    never taken again. *)
Theorem first_call_returns_last :
  forall (MoodImporter : Type)
         (same_ref : forall a b : MoodImporter, {a = b} + {a <> b})
         (rnd : nat -> Q),
    (forall (l : list MoodImporter) (f : MoodImporter) fuel current d,
        Moods.getRandomMoodImporter same_ref (l ++ [f]) rnd fuel current
          (Moods.mkState true d)
        = Moods.Returns (Moods.importer f, Moods.mkState false d))
    /\ (forall catalog fuel current st v st',
           Moods.isFirstCall st = false ->
           Moods.getRandomMoodImporter same_ref catalog rnd fuel current st
           = Moods.Returns (v, st') ->
           Moods.isFirstCall st' = false)
    /\ (forall (l : list MoodImporter) (f : MoodImporter) fuel current d
               cs v st1 vs st',
           Moods.getRandomMoodImporter same_ref (l ++ [f]) rnd fuel current
             (Moods.mkState true d)
           = Moods.Returns (v, st1) ->
           Moods.calls same_ref (l ++ [f]) rnd cs st1
           = Moods.Returns (vs, st') ->
           Moods.isFirstCall st1 = false /\ Moods.isFirstCall st' = false).
Proof.
  intros MI same_ref rnd.
  assert (First : forall (l : list MI) (f : MI) fuel current d,
             Moods.getRandomMoodImporter same_ref (l ++ [f]) rnd fuel current
               (Moods.mkState true d)
             = Moods.Returns (Moods.importer f, Moods.mkState false d)).
  { intros l f fuel current d. unfold Moods.getRandomMoodImporter. simpl.
    rewrite index_last. reflexivity. }
  split; [exact First|]. split.
  - intros catalog fuel current st v st'. apply flag_stays_down.
  - intros l f fuel current d cs v st1 vs st' H1 H2.
    rewrite First in H1. inversion H1; subst.
    split; [reflexivity|].
    eapply flag_stays_down_calls; [|exact H2]. reflexivity.
Qed.

(** The example of the description: with the catalog of the source the first
    call yields its last entry, the second one never does. *)
Example first_then_second :
  Moods.calls Moods.mood_eq_dec Moods.allMoodImporters Moods.sample_random
    [(0%nat, Moods.undefined); (3%nat, Moods.importer Moods.Augest8)]
    Moods.initial
  = Moods.Returns ([Moods.importer Moods.Augest8; Moods.importer Moods.July18],
                   Moods.mkState false 3).
Proof. reflexivity. Qed.

(** C9: with a catalog of exactly one entry every call, first or not and
    whatever [current] is, returns that entry. *)
Theorem single_entry_always_returned :
  forall (MoodImporter : Type)
         (same_ref : forall a b : MoodImporter, {a = b} + {a <> b})
         (f : MoodImporter) (rnd : nat -> Q) (fuel : nat)
         (current : Moods.value MoodImporter) (st : Moods.State),
    Moods.getRandomMoodImporter same_ref [f] rnd fuel current st
    = Moods.Returns (Moods.importer f,
                     Moods.mkState false (Moods.drawn st)).
Proof.
  intros MI same_ref f rnd fuel current [[|] d];
    unfold Moods.getRandomMoodImporter; reflexivity.
Qed.

(** C5, as the code has it: an empty catalog is not rejected. Every call on
    it returns normally, with the value [undefined], and nothing is thrown;
    the first call lowers the flag as usual. *)
Theorem empty_catalog_returns_undefined :
  forall (MoodImporter : Type)
         (same_ref : forall a b : MoodImporter, {a = b} + {a <> b})
         (rnd : nat -> Q) (fuel : nat)
         (current : Moods.value MoodImporter) (st : Moods.State),
    Moods.getRandomMoodImporter same_ref [] rnd fuel current st
    = Moods.Returns (Moods.undefined, Moods.mkState false (Moods.drawn st)).
Proof.
  intros MI same_ref rnd fuel current [[|] d];
    unfold Moods.getRandomMoodImporter; reflexivity.
Qed.

(** C5 fails as stated: on the empty catalog the very first call, made in
    the state the module starts in, returns a value instead of failing. *)
Lemma empty_catalog_does_not_fail :
  Moods.getRandomMoodImporter Moods.mood_eq_dec [] Moods.sample_random 0
    Moods.undefined Moods.initial
  = Moods.Returns (Moods.undefined, Moods.mkState false 0)
  /\ Moods.getRandomMoodImporter Moods.mood_eq_dec [] Moods.sample_random 0
       Moods.undefined Moods.initial
     <> Moods.Throws.
Proof. split; [reflexivity | discriminate]. Qed.

(* ================================================================== *)
(** * Facts about binary64 numbers *)
(* ================================================================== *)

Section FloatFacts.

Local Open Scope float_scope.

Lemma ltb_leb (a b : float) : (a <? b) = true -> (a <=? b) = true.
Proof.
  rewrite ltb_spec, leb_spec. unfold SFltb, SFleb.
  destruct (SFcompare (Prim2SF a) (Prim2SF b)) as [[| |]|]; congruence.
Qed.










(** *** Rounding never invents a NaN *)

Lemma is_nan_Prim2SF (f : float) : is_nan f = true <-> Prim2SF f = S754_nan.
Proof.
  unfold Prim2SF. destruct (is_nan f); split; try reflexivity; try discriminate.
  destruct (is_zero f); [discriminate|].
  destruct (is_infinity f); [discriminate|].
  destruct (Z.frexp f) as [r ex].
  destruct (shr_fexp _ _ _ _ _) as [s e'].
  destruct (shr_m s); discriminate.
Qed.










End FloatFacts.

(* ================================================================== *)
(** * Facts about link routing *)
(* ================================================================== *)

Section RoutingFacts.

Import Augest8.
Local Open Scope float_scope.

Variable hypot_approx : float -> float -> float.





(** The printed curve is the one of the description. *)
Lemma route_is_resolvePath (A B : FlowNode) :
  let r := route hypot_approx A B in
  ((sx r, sy r), (c1x r, c1y r), (c2x r, c2y r), (txa r, tya r))
  = resolvePath hypot_approx A B.
Proof.
  unfold route, resolvePath, entrySide, exitSide, classify_horizontal,
    clamp, distance, offset_along, center, centerOf, Math_abs.
  cbv zeta. simpl fst; simpl snd.
  destruct (ge (abs (x B + w B / 2 - (x A + w A / 2)))
               (abs (y B + h B / 2 - (y A + h A / 2))));
    [ destruct (ge (x B + w B / 2 - (x A + w A / 2)) 0)
    | destruct (ge (y B + h B / 2 - (y A + h A / 2)) 0) ];
    reflexivity.
Qed.

Lemma route_sides (A B : FlowNode) :
  let r := route hypot_approx A B in
  (sx r, sy r) = midpoint A (exitSide A B)
  /\ (sNx r, sNy r) = normal (exitSide A B)
  /\ (txa r, tya r) = midpoint B (entrySide A B)
  /\ (tNx r, tNy r) = normal (entrySide A B)
  /\ horizontal r = classify_horizontal A B
  /\ dist r = distance hypot_approx (sx r, sy r) (txa r, tya r)
  /\ k r = clamp (dist r / 3) 40 120
  /\ (c1x r, c1y r) = offset_along (sx r, sy r) (sNx r, sNy r) (k r)
  /\ (c2x r, c2y r) = offset_along (txa r, tya r) (tNx r, tNy r) (k r).
Proof.
  unfold route, entrySide, exitSide, classify_horizontal,
    clamp, distance, offset_along, center, centerOf, Math_abs.
  cbv zeta. simpl fst; simpl snd.
  destruct (ge (abs (x B + w B / 2 - (x A + w A / 2)))
               (abs (y B + h B / 2 - (y A + h A / 2))));
    [ destruct (ge (x B + w B / 2 - (x A + w A / 2)) 0)
    | destruct (ge (y B + h B / 2 - (y A + h A / 2)) 0) ];
    repeat split; reflexivity.
Qed.

End RoutingFacts.

(** C3: for every pair of rectangles [A] (from) and [B] (to) the link is
    horizontal exactly when |dx| >= |dy| for the centre-to-centre deltas; it
    leaves [A] at the midpoint of the side facing [B] (right or left by the
    sign of dx when horizontal, bottom or top by the sign of dy otherwise)
    and reaches [B] at the midpoint of the opposite side; the control points
    sit at each end point pushed along that side's outward normal by
    k = clamp (distance (exit, entry) / 3, 40, 120). For A at (0,100) and B
    at (810,100), both 156 by 176, dy is zero, the link leaves A through the
    midpoint (156,188) of its right edge and enters B through the midpoint
    (810,188) of its left edge. *)
Theorem resolvePath_classifies_and_anchors :
  forall (hypot_approx : float -> float -> float)
         (A B : Augest8.FlowNode),
    let r := Augest8.route hypot_approx A B in
    let dx := (fst (Augest8.centerOf B) - fst (Augest8.centerOf A))%float in
    let dy := (snd (Augest8.centerOf B) - snd (Augest8.centerOf A))%float in
    let exit := Augest8.midpoint A (Augest8.exitSide A B) in
    let entry := Augest8.midpoint B (Augest8.opposite (Augest8.exitSide A B)) in
    Augest8.horizontal r = Augest8.ge (abs dx) (abs dy)
    /\ Augest8.exitSide A B
       = (if Augest8.horizontal r
          then if Augest8.ge dx 0 then Augest8.Right else Augest8.Left
          else if Augest8.ge dy 0 then Augest8.Bottom else Augest8.Top)
    /\ (Augest8.sx r, Augest8.sy r) = exit
    /\ (Augest8.txa r, Augest8.tya r) = entry
    /\ Augest8.k r
       = Augest8.Math_min
           [120%float;
            Augest8.Math_max
              [40%float;
               (Augest8.distance hypot_approx exit entry / 3)%float]]
    /\ (Augest8.c1x r, Augest8.c1y r)
       = Augest8.offset_along exit
           (Augest8.normal (Augest8.exitSide A B)) (Augest8.k r)
    /\ (Augest8.c2x r, Augest8.c2y r)
       = Augest8.offset_along entry
           (Augest8.normal (Augest8.opposite (Augest8.exitSide A B)))
           (Augest8.k r)
    /\ ((Augest8.sx r, Augest8.sy r), (Augest8.c1x r, Augest8.c1y r),
        (Augest8.c2x r, Augest8.c2y r), (Augest8.txa r, Augest8.tya r))
       = Augest8.resolvePath hypot_approx A B
    /\ (Augest8.rect A = (0, 100, 156, 176)%float ->
        Augest8.rect B = (810, 100, 156, 176)%float ->
        dy = 0%float
        /\ Augest8.horizontal r = true
        /\ Augest8.exitSide A B = Augest8.Right
        /\ Augest8.entrySide A B = Augest8.Left
        /\ (Augest8.sx r, Augest8.sy r) = (156, 188)%float
        /\ (Augest8.txa r, Augest8.tya r) = (810, 188)%float).
Proof.
  intros hypot_approx A B r dx dy exit entry.
  pose proof (route_sides hypot_approx A B) as S. cbv zeta in S.
  fold r in S.
  destruct S as (Hs & Hsn & Ht & Htn & Hh & Hd & Hk & Hc1 & Hc2).
  assert (Hside : Augest8.exitSide A B
                  = (if Augest8.horizontal r
                     then if Augest8.ge dx 0 then Augest8.Right
                          else Augest8.Left
                     else if Augest8.ge dy 0 then Augest8.Bottom
                          else Augest8.Top))
    by (rewrite Hh; reflexivity).
  split; [rewrite Hh; reflexivity|].
  split; [exact Hside|].
  split; [exact Hs|].
  split; [exact Ht|].
  split.
  { rewrite Hk, Hd, Hs, Ht. reflexivity. }
  split; [rewrite Hc1, Hs, Hsn; reflexivity|].
  split; [rewrite Hc2, Ht, Htn; reflexivity|].
  split; [apply route_is_resolvePath|].
  intros HA HB. subst r dx dy exit entry.
  destruct A as [ia ta la sa xa ya wa ha ca pa na ka].
  destruct B as [ib tb lb sb xb yb wb hb cb pb nb kb].
  unfold Augest8.rect in HA, HB. simpl in HA, HB.
  inversion HA; inversion HB; subst.
  repeat split; vm_compute; reflexivity.
Qed.

(** The worked example once more, with the naive [hypot] and printed. *)
Example exampleA_to_exampleB :
  Augest8.route Augest8.naive_hypot Augest8.exampleA Augest8.exampleB
  = Augest8.mkRoute true 156 188 1 0 810 188 (-1) 0 654 120 276 188 690 188
  /\ Augest8.buildAdaptivePath Augest8.naive_hypot Augest8.sample_toString
       Augest8.exampleA Augest8.exampleB
     = "M 156 188 C 276 188, 690 188, 810 188"%string.
Proof. split; vm_compute; reflexivity. Qed.



(** The same with any other [hypot]: the NaN does not come from it. *)
Lemma overflowing_rectangle_any_hypot (hypot_approx : float -> float -> float) :
  is_nan (Augest8.k (Augest8.route hypot_approx Augest8.farAway Augest8.farAway))
  = true.
Proof. vm_compute. reflexivity. Qed.

(** A link of length zero: two rectangles touching along a vertical edge. *)
Example touching_rectangles :
  let A := Augest8.mkFlowNode Augest8.afxdp "a" "a" None 0 0 100 100
             Augest8.xdp None None None in
  let B := Augest8.mkFlowNode Augest8.decoder "b" "b" None 100 0 100 100
             Augest8.scan None None None in
  Augest8.route Augest8.naive_hypot A B
  = Augest8.mkRoute true 100 50 1 0 100 50 (-1) 0 0 40 140 50 60 50.
Proof. vm_compute. reflexivity. Qed.

(** C8: the path drawn for a link is a function of the rectangles of its two
    end nodes alone: two models in which the end nodes of two links carry
    the same rectangles yield the same path string, whatever else differs
    (other nodes, titles and icons, the drag session, the hovered node, the
    styling flags of the link). *)
Theorem resolvePath_depends_on_rectangles_only :
  forall (hypot_approx : float -> float -> float)
         (toString : float -> string)
         (m m' : Augest8.Model) (l l' : Augest8.FlowLink)
         (a b a' b' : Augest8.FlowNode),
    Augest8.findNode (Augest8.nodes m) (Augest8.from l) = Some a ->
    Augest8.findNode (Augest8.nodes m) (Augest8.to l) = Some b ->
    Augest8.findNode (Augest8.nodes m') (Augest8.from l') = Some a' ->
    Augest8.findNode (Augest8.nodes m') (Augest8.to l') = Some b' ->
    Augest8.rect a = Augest8.rect a' ->
    Augest8.rect b = Augest8.rect b' ->
    Augest8.linkPath hypot_approx toString m l
    = Some (Augest8.buildAdaptivePath hypot_approx toString a b)
    /\ Augest8.buildAdaptivePath hypot_approx toString a b
       = Augest8.buildAdaptivePath hypot_approx toString a' b'
    /\ Augest8.linkPath hypot_approx toString m l
       = Augest8.linkPath hypot_approx toString m' l'.
Proof.
  intros hypot_approx toString m m' l l' a b a' b' Fa Fb Fa' Fb' Ra Rb.
  assert (E : Augest8.buildAdaptivePath hypot_approx toString a b
              = Augest8.buildAdaptivePath hypot_approx toString a' b').
  { destruct a, b, a', b'. unfold Augest8.rect in Ra, Rb. simpl in Ra, Rb.
    inversion Ra; inversion Rb; subst. reflexivity. }
  unfold Augest8.linkPath. rewrite Fa, Fb, Fa', Fb', E. auto.
Qed.

(** The theorem at the link from [macBypass] to [afxdp], drawn in the
    initial model and in the middle of a drag of [uiOverlay]. *)
Lemma resolvePath_depends_on_rectangles_only_witness :
  Augest8.linkPath Augest8.naive_hypot Augest8.sample_toString
    Augest8.initialModel
    (Augest8.mkFlowLink Augest8.macBypass Augest8.afxdp None None None)
  = Some (Augest8.buildAdaptivePath Augest8.naive_hypot
            Augest8.sample_toString
            (Augest8.nodeOf Augest8.initialModel Augest8.macBypass)
            (Augest8.nodeOf Augest8.initialModel Augest8.afxdp))
  /\ Augest8.buildAdaptivePath Augest8.naive_hypot Augest8.sample_toString
       (Augest8.nodeOf Augest8.initialModel Augest8.macBypass)
       (Augest8.nodeOf Augest8.initialModel Augest8.afxdp)
     = Augest8.buildAdaptivePath Augest8.naive_hypot Augest8.sample_toString
         (Augest8.nodeOf Augest8.midDrag Augest8.macBypass)
         (Augest8.nodeOf Augest8.midDrag Augest8.afxdp)
  /\ Augest8.linkPath Augest8.naive_hypot Augest8.sample_toString
       Augest8.initialModel
       (Augest8.mkFlowLink Augest8.macBypass Augest8.afxdp None None None)
     = Augest8.linkPath Augest8.naive_hypot Augest8.sample_toString
         Augest8.midDrag
         (Augest8.mkFlowLink Augest8.macBypass Augest8.afxdp
            (Some true) (Some "red"%string) None).
Proof.
  apply (resolvePath_depends_on_rectangles_only
           Augest8.naive_hypot Augest8.sample_toString
           Augest8.initialModel Augest8.midDrag
           (Augest8.mkFlowLink Augest8.macBypass Augest8.afxdp None None None)
           (Augest8.mkFlowLink Augest8.macBypass Augest8.afxdp
              (Some true) (Some "red"%string) None)
           (Augest8.nodeOf Augest8.initialModel Augest8.macBypass)
           (Augest8.nodeOf Augest8.initialModel Augest8.afxdp)
           (Augest8.nodeOf Augest8.midDrag Augest8.macBypass)
           (Augest8.nodeOf Augest8.midDrag Augest8.afxdp));
    vm_compute; reflexivity.
Defined.

(* ================================================================== *)
(** * Facts about dragging *)
(* ================================================================== *)

Section DragFacts.

Import Augest8.
Local Open Scope float_scope.

Lemma NodeId_eqb_eq (a b : NodeId) : NodeId_eqb a b = true <-> a = b.
Proof. destruct a, b; simpl; split; congruence. Qed.

Lemma NodeId_eqb_neq (a b : NodeId) : NodeId_eqb a b = false <-> a <> b.
Proof.
  rewrite <- NodeId_eqb_eq. destruct (NodeId_eqb a b); split; congruence.
Qed.

Lemma handleMove_active (pt : Point) (m : Model) (dragged : NodeId) :
  drag_id (draggingRef m) = Some dragged ->
  handleMove pt m
  = mkModel (map (dragStep (draggingRef m) dragged pt) (nodes m))
            (draggingRef m) (hovered m).
Proof. unfold handleMove. intros ->. reflexivity. Qed.

Lemma handleMove_idle (pt : Point) (m : Model) :
  drag_id (draggingRef m) = None -> handleMove pt m = m.
Proof. unfold handleMove. intros ->. reflexivity. Qed.

Lemma dragStep_id drag dragged pt n : id (dragStep drag dragged pt n) = id n.
Proof. unfold dragStep. destruct (NodeId_eqb _ _); reflexivity. Qed.

Lemma dragStep_besides drag dragged pt n :
  besides_position (dragStep drag dragged pt n) = besides_position n.
Proof. unfold dragStep. destruct (NodeId_eqb _ _); reflexivity. Qed.

Lemma dragStep_other drag dragged pt n :
  id n <> dragged -> dragStep drag dragged pt n = n.
Proof.
  intro H. unfold dragStep. apply NodeId_eqb_neq in H. rewrite H. reflexivity.
Qed.

Lemma dragStep_changed drag dragged pt n :
  dragStep drag dragged pt n <> n -> id n = dragged.
Proof.
  unfold dragStep. destruct (NodeId_eqb (id n) dragged) eqn:E.
  - intros _. apply NodeId_eqb_eq. exact E.
  - intro H. contradiction H. reflexivity.
Qed.

(** Positions with different identifiers are different positions. *)
Lemma unique_id_same_index (ns : list FlowNode) (i j : nat) (a b : FlowNode) :
  NoDup (map id ns) ->
  nth_error ns i = Some a -> nth_error ns j = Some b -> id a = id b ->
  i = j.
Proof.
  intros ND Hi Hj E.
  assert (Li : (i < List.length (map id ns))%nat).
  { rewrite length_map. apply nth_error_Some. congruence. }
  apply (proj1 (NoDup_nth_error (map id ns)) ND i j Li).
  rewrite !nth_error_map, Hi, Hj. simpl. congruence.
Qed.

(** Without a [PointerDown], events met with no session open leave the
    nodes alone and open no session. *)
Lemma idle_events (es : list Event) :
  forall m, drag_id (draggingRef m) = None ->
            forallb (fun e => negb (is_down e)) es = true ->
            nodes (fold_left handle es m) = nodes m
            /\ drag_id (draggingRef (fold_left handle es m)) = None.
Proof.
  induction es as [|e es IH]; intros m Hd Hes; simpl in *.
  - split; [reflexivity | exact Hd].
  - apply andb_true_iff in Hes. destruct Hes as [He Hes].
    destruct e as [n start|pt|]; simpl in *; try discriminate.
    + rewrite (handleMove_idle pt m Hd). apply IH; assumption.
    + apply (IH (handleUp m) eq_refl Hes).
Qed.

End DragFacts.

(** C4: while a drag session is open, a pointer move rewrites the position
    of the dragged node and nothing else: the list keeps its length and its
    identifiers in order, every node keeps all its fields other than [x] and
    [y], every node whose identifier is not the dragged one is the very same
    record afterwards, and, identifiers being unique, at most one node is
    changed. The session and the hover state are untouched as well. *)
Theorem updateDrag_moves_only_dragged :
  forall (m : Augest8.Model) (pt : Augest8.Point) (dragged : Augest8.NodeId),
    Augest8.drag_id (Augest8.draggingRef m) = Some dragged ->
    List.length (Augest8.nodes (Augest8.handleMove pt m))
    = List.length (Augest8.nodes m)
    /\ map Augest8.id (Augest8.nodes (Augest8.handleMove pt m))
       = map Augest8.id (Augest8.nodes m)
    /\ (forall i n,
           nth_error (Augest8.nodes m) i = Some n ->
           exists n',
             nth_error (Augest8.nodes (Augest8.handleMove pt m)) i = Some n'
             /\ Augest8.besides_position n' = Augest8.besides_position n
             /\ (Augest8.id n <> dragged -> n' = n))
    /\ (NoDup (map Augest8.id (Augest8.nodes m)) ->
        forall i j a b,
          nth_error (Augest8.nodes m) i = Some a ->
          nth_error (Augest8.nodes m) j = Some b ->
          nth_error (Augest8.nodes (Augest8.handleMove pt m)) i <> Some a ->
          nth_error (Augest8.nodes (Augest8.handleMove pt m)) j <> Some b ->
          i = j)
    /\ Augest8.draggingRef (Augest8.handleMove pt m) = Augest8.draggingRef m
    /\ Augest8.hovered (Augest8.handleMove pt m) = Augest8.hovered m.
Proof.
  intros m pt dragged Hd.
  rewrite (handleMove_active pt m dragged Hd). simpl.
  set (f := Augest8.dragStep (Augest8.draggingRef m) dragged pt).
  split; [apply length_map|].
  split.
  { rewrite map_map. apply map_ext. intro n. apply dragStep_id. }
  split.
  { intros i n Hi. exists (f n). rewrite nth_error_map, Hi. simpl.
    split; [reflexivity|]. split.
    - apply dragStep_besides.
    - apply dragStep_other. }
  split; [|split; reflexivity].
  intros ND i j a b Hi Hj Ci Cj.
  rewrite nth_error_map, Hi in Ci. rewrite nth_error_map, Hj in Cj.
  simpl in Ci, Cj. subst f.
  assert (Ia : Augest8.id a = dragged)
    by (apply (dragStep_changed (Augest8.draggingRef m) dragged pt);
        intro E; apply Ci; rewrite E; reflexivity).
  assert (Ib : Augest8.id b = dragged)
    by (apply (dragStep_changed (Augest8.draggingRef m) dragged pt);
        intro E; apply Cj; rewrite E; reflexivity).
  eapply unique_id_same_index; eauto. congruence.
Qed.

(** The theorem at the canonical layout with [macBypass] grabbed. *)
Lemma updateDrag_moves_only_dragged_witness :
  let m := Augest8.onPointerDown
             (Augest8.nodeOf Augest8.initialModel Augest8.macBypass)
             (Augest8.mkPoint 100 400) Augest8.initialModel in
  let pt := Augest8.mkPoint 130.5 420.25 in
  Augest8.drag_id (Augest8.draggingRef m) = Some Augest8.macBypass
  /\ (List.length (Augest8.nodes (Augest8.handleMove pt m))
      = List.length (Augest8.nodes m)
      /\ map Augest8.id (Augest8.nodes (Augest8.handleMove pt m))
         = map Augest8.id (Augest8.nodes m)
      /\ (forall i n,
             nth_error (Augest8.nodes m) i = Some n ->
             exists n',
               nth_error (Augest8.nodes (Augest8.handleMove pt m)) i = Some n'
               /\ Augest8.besides_position n' = Augest8.besides_position n
               /\ (Augest8.id n <> Augest8.macBypass -> n' = n))
      /\ (NoDup (map Augest8.id (Augest8.nodes m)) ->
          forall i j a b,
            nth_error (Augest8.nodes m) i = Some a ->
            nth_error (Augest8.nodes m) j = Some b ->
            nth_error (Augest8.nodes (Augest8.handleMove pt m)) i <> Some a ->
            nth_error (Augest8.nodes (Augest8.handleMove pt m)) j <> Some b ->
            i = j)
      /\ Augest8.draggingRef (Augest8.handleMove pt m) = Augest8.draggingRef m
      /\ Augest8.hovered (Augest8.handleMove pt m) = Augest8.hovered m).
Proof.
  intros m pt. split; [reflexivity|].
  apply (updateDrag_moves_only_dragged m pt Augest8.macBypass). reflexivity.
Defined.

(** The move of the witness, evaluated: only the second node has moved. *)
Example drag_macBypass :
  map (fun n => (Augest8.x n, Augest8.y n))
      (Augest8.nodes
         (Augest8.handleMove (Augest8.mkPoint 130.5 420.25)
            (Augest8.onPointerDown
               (Augest8.nodeOf Augest8.initialModel Augest8.macBypass)
               (Augest8.mkPoint 100 400) Augest8.initialModel)))
  = [(10, 100); (50.5, 370.25); (220, 350); (420, 350); (620, 350);
     (720, 550); (820, 350); (810, 100)]%float.
Proof. vm_compute. reflexivity. Qed.

(** The identifiers of the canonical layout are pairwise distinct. *)
Lemma initialNodes_unique :
  NoDup (map Augest8.id Augest8.initialNodes).
Proof.
  simpl. repeat constructor; simpl; intuition discriminate.
Qed.

(** No event changes the identifiers or their order: every model reached
    from the canonical layout has its eight distinct identifiers. *)
Lemma ids_invariant (es : list Augest8.Event) :
  forall m, map Augest8.id (Augest8.nodes (fold_left Augest8.handle es m))
            = map Augest8.id (Augest8.nodes m).
Proof.
  induction es as [|e es IH]; intro m; simpl; [reflexivity|].
  rewrite IH. destruct e as [n start|pt|]; simpl; try reflexivity.
  unfold Augest8.handleMove.
  destruct (Augest8.drag_id (Augest8.draggingRef m)) as [dragged|];
    [|reflexivity].
  simpl. rewrite map_map. apply map_ext. intro n.
  destruct (Augest8.NodeId_eqb _ _); reflexivity.
Qed.

Lemma reachable_ids_unique (es : list Augest8.Event) :
  NoDup (map Augest8.id
             (Augest8.nodes (fold_left Augest8.handle es Augest8.initialModel))).
Proof. rewrite ids_invariant. apply initialNodes_unique. Qed.

(** C7: [handleUp] empties the session whatever the state, a second
    [handleUp] changes nothing more, and a pointer move after it is a no-op;
    more generally no run of moves and releases after it changes any node. *)
Theorem endDrag_clears_session :
  forall (m : Augest8.Model),
    Augest8.draggingRef (Augest8.handleUp m) = Augest8.mkDragging None 0 0
    /\ Augest8.nodes (Augest8.handleUp m) = Augest8.nodes m
    /\ Augest8.handleUp (Augest8.handleUp m) = Augest8.handleUp m
    /\ (forall pt,
           Augest8.handleMove pt (Augest8.handleUp m) = Augest8.handleUp m)
    /\ (forall es,
           forallb (fun e => negb (Augest8.is_down e)) es = true ->
           Augest8.nodes (fold_left Augest8.handle es (Augest8.handleUp m))
           = Augest8.nodes m).
Proof.
  intro m. do 3 (split; [reflexivity|]). split.
  - intro pt. apply handleMove_idle. reflexivity.
  - intros es Hes.
    destruct (idle_events es (Augest8.handleUp m) eq_refl Hes) as [H _].
    exact H.
Qed.

(** A release in the middle of a drag: the later moves change nothing. *)
Example release_then_move :
  map (fun n => (Augest8.x n, Augest8.y n))
      (Augest8.nodes
         (fold_left Augest8.handle
            [Augest8.PointerUp; Augest8.PointerMove (Augest8.mkPoint 5 5);
             Augest8.PointerUp; Augest8.PointerMove (Augest8.mkPoint 900 700)]
            Augest8.midDrag))
  = map (fun n => (Augest8.x n, Augest8.y n)) (Augest8.nodes Augest8.midDrag).
Proof. vm_compute. reflexivity. Qed.

(** In exact arithmetic the position written by a move is the grabbed
    position translated by the pointer's displacement. *)
Remark translation_in_exact_arithmetic (x0 p q off : Q) :
  (q - off) - (p - (x0 + off)) == x0 + (q - p).
Proof. ring. Qed.

(** C10, as the code has it: after [onPointerDown] on a node of the model
    at pointer position [p], a move at [q] writes to that node the position
    [((q.x - offsetX) - (p.x - (x + offsetX)), q.y - (p.y - y))], each
    operation rounded to binary64, where [(x, y)] is the node's position at
    grab time and [offsetX] is 24; the node's other fields are kept and,
    identifiers being unique, the other nodes are left as they were. *)
Theorem drag_sets_position :
  forall (m : Augest8.Model) (n : Augest8.FlowNode)
         (p q : Augest8.Point) (i : nat),
    nth_error (Augest8.nodes m) i = Some n ->
    let m' := Augest8.handleMove q (Augest8.onPointerDown n p m) in
    nth_error (Augest8.nodes m') i
    = Some (Augest8.moved n
              (Augest8.pt_x q - Augest8.offsetX
               - (Augest8.pt_x p - (Augest8.x n + Augest8.offsetX)))%float
              (Augest8.pt_y q - (Augest8.pt_y p - Augest8.y n))%float)
    /\ Augest8.offsetX = 24%float
    /\ (NoDup (map Augest8.id (Augest8.nodes m)) ->
        forall j, j <> i ->
                  nth_error (Augest8.nodes m') j
                  = nth_error (Augest8.nodes m) j).
Proof.
  intros m n p q i Hi m'. subst m'.
  rewrite (handleMove_active q (Augest8.onPointerDown n p m) (Augest8.id n))
    by reflexivity.
  simpl. split; [|split; [reflexivity|]].
  - rewrite nth_error_map, Hi. simpl. unfold Augest8.dragStep.
    rewrite (proj2 (NodeId_eqb_eq (Augest8.id n) (Augest8.id n)) eq_refl).
    reflexivity.
  - intros ND j Hj. rewrite nth_error_map.
    destruct (nth_error (Augest8.nodes m) j) as [b|] eqn:Ej; [|reflexivity].
    simpl. f_equal. apply dragStep_other. intro E.
    apply Hj. eapply unique_id_same_index; eauto.
Qed.

(** The theorem at the canonical layout: [appRender] grabbed at (50, 150)
    and moved to (40.1, 150). *)
Lemma drag_sets_position_witness :
  let m := Augest8.initialModel in
  let n := Augest8.nodeOf Augest8.initialModel Augest8.appRender in
  let p := Augest8.mkPoint 50 150 in
  let q := Augest8.mkPoint 40.1 150 in
  let m' := Augest8.handleMove q (Augest8.onPointerDown n p m) in
  nth_error (Augest8.nodes m) 0 = Some n
  /\ (nth_error (Augest8.nodes m') 0
      = Some (Augest8.moved n
                (Augest8.pt_x q - Augest8.offsetX
                 - (Augest8.pt_x p - (Augest8.x n + Augest8.offsetX)))%float
                (Augest8.pt_y q - (Augest8.pt_y p - Augest8.y n))%float)
      /\ Augest8.offsetX = 24%float
      /\ (NoDup (map Augest8.id (Augest8.nodes m)) ->
          forall j, j <> 0%nat ->
                    nth_error (Augest8.nodes m') j
                    = nth_error (Augest8.nodes m) j)).
Proof.
  intros m n p q m'. split; [reflexivity|].
  apply (drag_sets_position m n p q 0%nat). reflexivity.
Defined.

(** C10 fails as stated. From the canonical layout, [appRender] is dragged
    once and released; it then sits at x = 0.10000000000000142. Grabbing it
    again at (88.2, 150) and receiving a move at that very point writes
    x = 0.10000000000000853: the node has moved although the pointer has
    not. *)
Lemma grab_and_hold_drifts :
  let m := Augest8.afterFirstDrag in
  let n := Augest8.nodeOf m Augest8.appRender in
  let p := Augest8.mkPoint 88.2 150 in
  let m' := Augest8.handleMove p (Augest8.onPointerDown n p m) in
  Augest8.findNode (Augest8.nodes m) Augest8.appRender = Some n
  /\ (Augest8.x n, Augest8.y n) = (0.10000000000000142, 100)%float
  /\ (Augest8.x (Augest8.nodeOf m' Augest8.appRender),
      Augest8.y (Augest8.nodeOf m' Augest8.appRender))
     = (0.10000000000000853, 100)%float
  /\ (Augest8.x (Augest8.nodeOf m' Augest8.appRender) =? Augest8.x n)%float
     = false.
Proof. cbv zeta. repeat split; vm_compute; reflexivity. Qed.

(* ================================================================== *)
(** * More facts about binary64 numbers *)
(* ================================================================== *)

Section FloatOrder.

Local Open Scope float_scope.

Lemma SFcompare_swap (u v : spec_float) :
  SFcompare v u = option_map CompOpp (SFcompare u v).
Proof.
  destruct u as [s1|s1| |s1 m1 e1], v as [s2|s2| |s2 m2 e2]; simpl;
    try reflexivity;
    try (destruct s1; reflexivity); try (destruct s2; reflexivity);
    try (destruct s1, s2; reflexivity).
  destruct s1, s2; simpl; try reflexivity;
    rewrite (Z.compare_antisym e1 e2);
    destruct (Z.compare e1 e2); simpl; try reflexivity;
    change (Pos.compare_cont Eq m2 m1) with (Pos.compare m2 m1);
    change (Pos.compare_cont Eq m1 m2) with (Pos.compare m1 m2);
    rewrite (Pos.compare_antisym m1 m2);
    try rewrite CompOpp_involutive; reflexivity.
Qed.








Lemma binary_round_aux_opp (prec emax : Z) (s : bool) (m e : Z) (l : location) :
  binary_round_aux prec emax (negb s) m e l
  = SFopp (binary_round_aux prec emax s m e l).
Proof.
  unfold binary_round_aux.
  destruct (shr_fexp prec emax m e l) as [mrs' e'].
  destruct (shr_fexp prec emax _ e' loc_Exact) as [mrs'' e''].
  destruct (shr_m mrs''); try reflexivity.
  destruct (_ <=? _)%Z; reflexivity.
Qed.

Lemma binary_normalize_opp (prec emax z e : Z) :
  z <> 0%Z ->
  binary_normalize prec emax (- z) e false
  = SFopp (binary_normalize prec emax z e false).
Proof.
  intro Hz. unfold binary_normalize, binary_round.
  destruct z as [|p|p]; [congruence| |]; simpl;
    destruct (shl_align _ _ _) as [mz ez].
  - apply (binary_round_aux_opp prec emax false).
  - rewrite <- (binary_round_aux_opp prec emax true). reflexivity.
Qed.

(** Swapping the operands of a subtraction flips the sign of the result,
    except that [+0] stays [+0]. *)
Lemma SFsub_swap (prec emax : Z) (u v : spec_float) :
  SFsub prec emax v u = SFopp (SFsub prec emax u v)
  \/ (SFsub prec emax v u = S754_zero false
      /\ SFsub prec emax u v = S754_zero false).
Proof.
  destruct u as [s1|s1| |s1 m1 e1], v as [s2|s2| |s2 m2 e2]; simpl;
    try (left; reflexivity);
    try (destruct s1, s2; simpl; auto; fail);
    try (left; destruct s1; reflexivity);
    try (left; destruct s2; reflexivity).
  rewrite (Z.min_comm e2 e1).
  set (X := cond_Zopp s1 (Z.pos (fst (shl_align m1 e1 (Z.min e1 e2))))).
  set (Y := cond_Zopp s2 (Z.pos (fst (shl_align m2 e2 (Z.min e1 e2))))).
  destruct (Z.eq_dec (X - Y) 0) as [E|E].
  - right. replace (Y - X)%Z with 0%Z by lia. rewrite E. split; reflexivity.
  - left. replace (Y - X)%Z with (- (X - Y))%Z by lia.
    apply binary_normalize_opp. exact E.
Qed.

Lemma SFabs_opp (u : spec_float) : SFabs (SFopp u) = SFabs u.
Proof. destruct u; reflexivity. Qed.

(** |b - a| and |a - b| are the same number. *)
Lemma abs_sub_swap (a b : float) : abs (b - a) = abs (a - b).
Proof.
  apply Prim2SF_inj. rewrite !abs_spec, !sub_spec.
  destruct (SFsub_swap prec emax (Prim2SF a) (Prim2SF b)) as [H|[H1 H2]].
  - unfold SF64sub. rewrite H. apply SFabs_opp.
  - unfold SF64sub. rewrite H1, H2. reflexivity.
Qed.

Lemma SFltb_opp_pos (u : spec_float) :
  SFltb (S754_zero false) u = true -> SFltb (SFopp u) (S754_zero false) = true.
Proof. destruct u as [s|s| |s m e]; simpl; try discriminate; destruct s; auto. Qed.

Lemma SFltb_opp_neg (u : spec_float) :
  SFltb u (S754_zero false) = true -> SFltb (S754_zero false) (SFopp u) = true.
Proof. destruct u as [s|s| |s m e]; simpl; try discriminate; destruct s; auto. Qed.

(** A positive difference becomes negative when the operands are swapped,
    and conversely. *)
Lemma sub_swap_pos (a b : float) : (0 <? a - b) = true -> (b - a <? 0) = true.
Proof.
  rewrite !ltb_spec, !sub_spec. change (Prim2SF 0) with (S754_zero false).
  unfold SF64sub. intro H.
  destruct (SFsub_swap prec emax (Prim2SF a) (Prim2SF b)) as [E|[E1 E2]].
  - rewrite E. apply SFltb_opp_pos. exact H.
  - rewrite E2 in H. discriminate.
Qed.

Lemma sub_swap_neg (a b : float) : (a - b <? 0) = true -> (0 <? b - a) = true.
Proof.
  rewrite !ltb_spec, !sub_spec. change (Prim2SF 0) with (S754_zero false).
  unfold SF64sub. intro H.
  destruct (SFsub_swap prec emax (Prim2SF a) (Prim2SF b)) as [E|[E1 E2]].
  - rewrite E. apply SFltb_opp_neg. exact H.
  - rewrite E2 in H. discriminate.
Qed.

Lemma ltb_not_leb (a b : float) : (a <? b) = true -> (b <=? a) = false.
Proof.
  rewrite ltb_spec, leb_spec. unfold SFltb, SFleb.
  rewrite (SFcompare_swap (Prim2SF a) (Prim2SF b)).
  destruct (SFcompare (Prim2SF a) (Prim2SF b)) as [[| |]|]; simpl; congruence.
Qed.

Lemma abs_abs (a : float) : abs (abs a) = abs a.
Proof.
  apply Prim2SF_inj. rewrite !abs_spec. destruct (Prim2SF a); reflexivity.
Qed.

Lemma is_nan_abs (a : float) : is_nan (abs a) = is_nan a.
Proof.
  destruct (is_nan a) eqn:H.
  - apply is_nan_Prim2SF. rewrite abs_spec.
    apply is_nan_Prim2SF in H. rewrite H. reflexivity.
  - destruct (is_nan (abs a)) eqn:H'; [|reflexivity].
    apply is_nan_Prim2SF in H'. rewrite abs_spec in H'.
    destruct (Prim2SF a) eqn:E; try discriminate.
    apply is_nan_Prim2SF in E. congruence.
Qed.

Lemma is_zero_abs (a : float) : is_zero (abs a) = is_zero a.
Proof.
  unfold is_zero. rewrite !FloatAxioms.eqb_spec, abs_spec.
  destruct (Prim2SF a) as [s|s| |s m e]; try reflexivity; destruct s; reflexivity.
Qed.

Lemma is_infinity_abs (a : float) : is_infinity (abs a) = is_infinity a.
Proof. unfold is_infinity. rewrite abs_abs. reflexivity. Qed.


Lemma SFmul_self_sign (prec emax : Z) (u : spec_float) :
  SFmul prec emax (SFabs u) (SFabs u) = SFmul prec emax u u.
Proof. destruct u as [s|s| |s m e]; simpl; try reflexivity; destruct s; reflexivity. Qed.

Lemma naive_hypot_even (a b : float) :
  Augest8.naive_hypot a b = Augest8.naive_hypot (abs a) (abs b).
Proof.
  unfold Augest8.naive_hypot.
  assert (S : forall c, abs c * abs c = c * c).
  { intro c. apply Prim2SF_inj. rewrite !mul_spec, abs_spec.
    apply SFmul_self_sign. }
  rewrite !S. reflexivity.
Qed.




End FloatOrder.

Section MinMax.

Import Augest8.
Local Open Scope float_scope.













End MinMax.

Section HypotSymmetry.

Import Augest8.
Local Open Scope float_scope.

Variable hypot_approx : float -> float -> float.
Hypothesis hypot_even : forall a b, hypot_approx a b = hypot_approx (abs a) (abs b).

Lemma Math_hypot_abs (a b : float) :
  Math_hypot hypot_approx a b = Math_hypot hypot_approx (abs a) (abs b).
Proof.
  unfold Math_hypot.
  rewrite !is_infinity_abs, !is_nan_abs, !is_zero_abs.
  rewrite (hypot_even a b). reflexivity.
Qed.

Lemma Math_hypot_swap (a b c d : float) :
  Math_hypot hypot_approx (a - b) (c - d)
  = Math_hypot hypot_approx (b - a) (d - c).
Proof.
  rewrite (Math_hypot_abs (a - b)), (Math_hypot_abs (b - a)).
  rewrite (abs_sub_swap a b), (abs_sub_swap c d). reflexivity.
Qed.
End HypotSymmetry.

(* ================================================================== *)
(** * Further properties of the selector *)
(* ================================================================== *)

Section SelectorRuns.

Import Moods.

Context {MoodImporter : Type}.
Variable same_ref : forall a b : MoodImporter, {a = b} + {a <> b}.
Variable catalog : list MoodImporter.
Variable rnd : nat -> Q.



End SelectorRuns.









(* ================================================================== *)
(** * Further properties of dragging *)
(* ================================================================== *)

Section DragRuns.

Import Augest8.
Local Open Scope float_scope.

Lemma model_eta (m : Model) :
  mkModel (nodes m) (draggingRef m) (hovered m) = m.
Proof. destruct m; reflexivity. Qed.

(** A second move of the same session overwrites the first. *)
Lemma dragStep_absorbs drag dragged p q n :
  dragStep drag dragged q (dragStep drag dragged p n)
  = dragStep drag dragged q n.
Proof.
  unfold dragStep.
  destruct (NodeId_eqb (id n) dragged) eqn:E; simpl; rewrite E; reflexivity.
Qed.

Lemma handleMove_absorbs (p q : Point) (m : Model) :
  handleMove q (handleMove p m) = handleMove q m.
Proof.
  destruct (drag_id (draggingRef m)) as [dragged|] eqn:D.
  - rewrite (handleMove_active p m dragged D).
    rewrite (handleMove_active q m dragged D).
    rewrite (handleMove_active q _ dragged) by exact D.
    simpl. rewrite map_map. f_equal. apply map_ext. intro n.
    apply dragStep_absorbs.
  - rewrite (handleMove_idle p m D). reflexivity.
Qed.

Lemma moves_absorbed (qs : list Point) :
  forall (q : Point) (m : Model),
    fold_left handle (map PointerMove (qs ++ [q])) m = handleMove q m.
Proof.
  induction qs as [|p qs IH]; intros q m; simpl; [reflexivity|].
  rewrite IH. apply handleMove_absorbs.
Qed.

(** [find] on the nodes looks at identifiers only. *)
Lemma findNode_present (ns : list FlowNode) (i : NodeId) :
  In i (map id ns) -> exists n, findNode ns i = Some n /\ id n = i /\ In n ns.
Proof.
  unfold findNode. induction ns as [|a ns IH]; simpl; [tauto|].
  intros [H|H].
  - subst i. rewrite (proj2 (NodeId_eqb_eq (id a) (id a)) eq_refl). eauto.
  - destruct (NodeId_eqb (id a) i) eqn:E.
    + apply NodeId_eqb_eq in E. eauto.
    + destruct (IH H) as (n & Hn & Hi & Hin). eauto.
Qed.

Lemma findNode_absent (ns : list FlowNode) (i : NodeId) :
  ~ In i (map id ns) -> findNode ns i = None.
Proof.
  unfold findNode. induction ns as [|a ns IH]; simpl; [reflexivity|].
  intro H. destruct (NodeId_eqb (id a) i) eqn:E.
  - apply NodeId_eqb_eq in E. tauto.
  - apply IH. tauto.
Qed.

(** Looking up any node but the dragged one is not affected by a move. *)
Lemma findNode_dragStep drag dragged pt (ns : list FlowNode) (i : NodeId) :
  i <> dragged ->
  findNode (map (dragStep drag dragged pt) ns) i = findNode ns i.
Proof.
  intro Hi. unfold findNode. induction ns as [|a ns IH]; simpl; [reflexivity|].
  rewrite dragStep_id. destruct (NodeId_eqb (id a) i) eqn:E.
  - apply NodeId_eqb_eq in E. rewrite dragStep_other by congruence. reflexivity.
  - exact IH.
Qed.

Lemma every_id_in_layout (i : NodeId) : In i (map id initialNodes).
Proof. destruct i; simpl; tauto. Qed.

Lemma events_keep_besides (es : list Event) :
  forall m, map besides_position (nodes (fold_left handle es m))
            = map besides_position (nodes m).
Proof.
  induction es as [|e es IH]; intro m; simpl; [reflexivity|].
  rewrite IH. destruct e as [n start|pt|]; simpl; try reflexivity.
  unfold handleMove.
  destruct (drag_id (draggingRef m)) as [dragged|]; [|reflexivity].
  simpl. rewrite map_map. apply map_ext. intro n.
  destruct (NodeId_eqb _ _); reflexivity.
Qed.

End DragRuns.

(** X4: no run of pointer events, from any model, adds or removes a node or
    changes any field of a node other than [x] and [y]: identifier, texts,
    size, icon, shape, glow and icon scale stay as they were, in the same
    order. *)
Theorem events_change_positions_only :
  forall (es : list Augest8.Event) (m : Augest8.Model),
    map Augest8.besides_position
        (Augest8.nodes (fold_left Augest8.handle es m))
    = map Augest8.besides_position (Augest8.nodes m)
    /\ List.length (Augest8.nodes (fold_left Augest8.handle es m))
       = List.length (Augest8.nodes m)
    /\ Augest8.hovered (fold_left Augest8.handle es m) = Augest8.hovered m.
Proof.
  intros es m. split; [apply events_keep_besides|]. split.
  - rewrite <- (length_map Augest8.besides_position),
      <- (length_map Augest8.besides_position (Augest8.nodes m)).
    rewrite events_keep_besides. reflexivity.
  - revert m. induction es as [|e es IH]; intro m; simpl; [reflexivity|].
    rewrite IH. destruct e as [n start|pt|]; simpl; try reflexivity.
    unfold Augest8.handleMove.
    destruct (Augest8.drag_id (Augest8.draggingRef m)); reflexivity.
Qed.

(** X5: in every model reached from the canonical layout by pointer events,
    [nodes.find] succeeds for each of the eight identifiers and yields a
    node carrying that identifier, so the path of every link, whatever its
    two identifiers, can be built: the render pass never meets
    [undefined]. *)
Theorem reachable_models_resolve_every_link :
  forall (es : list Augest8.Event) (hypot_approx : float -> float -> float)
         (toString : float -> string),
    let m := fold_left Augest8.handle es Augest8.initialModel in
    (forall i, exists n,
          Augest8.findNode (Augest8.nodes m) i = Some n
          /\ Augest8.id n = i /\ In n (Augest8.nodes m))
    /\ (forall l, exists a b,
           Augest8.findNode (Augest8.nodes m) (Augest8.from l) = Some a
           /\ Augest8.findNode (Augest8.nodes m) (Augest8.to l) = Some b
           /\ Augest8.linkPath hypot_approx toString m l
              = Some (Augest8.buildAdaptivePath hypot_approx toString a b)).
Proof.
  intros es hypot_approx toString m.
  assert (F : forall i, exists n,
               Augest8.findNode (Augest8.nodes m) i = Some n
               /\ Augest8.id n = i /\ In n (Augest8.nodes m)).
  { intro i. apply findNode_present. subst m. rewrite ids_invariant.
    apply every_id_in_layout. }
  split; [exact F|].
  intro l.
  destruct (F (Augest8.from l)) as (a & Ha & _).
  destruct (F (Augest8.to l)) as (b & Hb & _).
  exists a, b. unfold Augest8.linkPath. rewrite Ha, Hb. auto.
Qed.

(** X6: a whole gesture, pointer-down on a node, any number of moves and a
    release, ends exactly where a single move to the last pointer position
    followed by the release would: the moves in between leave no trace, and
    the session is closed. *)
Theorem gesture_ends_at_last_move :
  forall (m : Augest8.Model) (n : Augest8.FlowNode)
         (p q : Augest8.Point) (qs : list Augest8.Point),
    fold_left Augest8.handle
      (Augest8.PointerDown n p
         :: map Augest8.PointerMove (qs ++ [q]) ++ [Augest8.PointerUp])
      m
    = Augest8.handleUp
        (Augest8.handleMove q (Augest8.onPointerDown n p m))
    /\ Augest8.handleMove q (Augest8.handleMove q m)
       = Augest8.handleMove q m.
Proof.
  intros m n p q qs. split; [|apply handleMove_absorbs].
  simpl. rewrite fold_left_app. rewrite moves_absorbed. reflexivity.
Qed.

(** X7: while a node is dragged, a pointer move leaves the path of every
    link that does not touch the dragged node as it was. *)
Theorem drag_reroutes_only_incident_links :
  forall (hypot_approx : float -> float -> float) (toString : float -> string)
         (m : Augest8.Model) (pt : Augest8.Point)
         (dragged : Augest8.NodeId) (l : Augest8.FlowLink),
    Augest8.drag_id (Augest8.draggingRef m) = Some dragged ->
    Augest8.from l <> dragged ->
    Augest8.to l <> dragged ->
    Augest8.linkPath hypot_approx toString (Augest8.handleMove pt m) l
    = Augest8.linkPath hypot_approx toString m l.
Proof.
  intros hypot_approx toString m pt dragged l Hd Hf Ht.
  rewrite (handleMove_active pt m dragged Hd).
  unfold Augest8.linkPath. simpl.
  rewrite !findNode_dragStep by assumption. reflexivity.
Qed.

(** X7 in the middle of the drag of [uiOverlay]: the link from [macBypass]
    to [afxdp] keeps its path. *)
Lemma drag_reroutes_only_incident_links_witness :
  Augest8.linkPath Augest8.naive_hypot Augest8.sample_toString
    (Augest8.handleMove (Augest8.mkPoint 300 200) Augest8.midDrag)
    (Augest8.mkFlowLink Augest8.macBypass Augest8.afxdp None None None)
  = Augest8.linkPath Augest8.naive_hypot Augest8.sample_toString
      Augest8.midDrag
      (Augest8.mkFlowLink Augest8.macBypass Augest8.afxdp None None None).
Proof.
  apply (drag_reroutes_only_incident_links
           Augest8.naive_hypot Augest8.sample_toString Augest8.midDrag
           (Augest8.mkPoint 300 200) Augest8.uiOverlay
           (Augest8.mkFlowLink Augest8.macBypass Augest8.afxdp None None None)).
  - reflexivity.
  - discriminate.
  - discriminate.
Defined.

(** X8: a session whose node is not among the nodes of the model is
    harmless: a pointer move then changes nothing at all. *)
Theorem stale_session_is_harmless :
  forall (m : Augest8.Model) (pt : Augest8.Point) (dragged : Augest8.NodeId),
    Augest8.drag_id (Augest8.draggingRef m) = Some dragged ->
    ~ In dragged (map Augest8.id (Augest8.nodes m)) ->
    Augest8.handleMove pt m = m.
Proof.
  intros m pt dragged Hd Hout.
  rewrite (handleMove_active pt m dragged Hd).
  assert (E : map (Augest8.dragStep (Augest8.draggingRef m) dragged pt)
                  (Augest8.nodes m)
              = Augest8.nodes m).
  { rewrite <- (map_id (Augest8.nodes m)) at 2.
    apply map_ext_in. intros n Hn. apply dragStep_other.
    intro E. apply Hout. rewrite <- E. apply in_map. exact Hn. }
  rewrite E. apply model_eta.
Qed.

(** X8 on a diagram of two nodes with a session left on [decoder]. *)
Lemma stale_session_is_harmless_witness :
  let m := Augest8.mkModel [Augest8.exampleA; Augest8.exampleB]
             (Augest8.mkDragging (Some Augest8.decoder) 3 4) None in
  Augest8.handleMove (Augest8.mkPoint 500 500) m = m.
Proof.
  intro m.
  apply (stale_session_is_harmless m (Augest8.mkPoint 500 500)
           Augest8.decoder).
  - reflexivity.
  - simpl. intros [H|[H|H]]; [discriminate | discriminate | exact H].
Defined.

(* ================================================================== *)
(** * Further properties of link routing *)
(* ================================================================== *)

Section RoutingSymmetry.

Import Augest8.
Local Open Scope float_scope.

Variable hypot_approx : float -> float -> float.

(** [route] with its tests named: the four cases of the source. *)
Lemma route_cases (A B : FlowNode) :
  let fx := x A + w A / 2 in
  let fy := y A + h A / 2 in
  let tx := x B + w B / 2 in
  let ty := y B + h B / 2 in
  let dx := tx - fx in
  let dy := ty - fy in
  let kOf := fun sx sy txa tya =>
               Math_min [120; Math_max [40; Math_hypot hypot_approx
                                                       (txa - sx) (tya - sy) / 3]] in
  let mk := fun hz sx sy sNx sNy txa tya tNx tNy =>
              mkRoute hz sx sy sNx sNy txa tya tNx tNy
                      (Math_hypot hypot_approx (txa - sx) (tya - sy))
                      (kOf sx sy txa tya)
                      (sx + sNx * kOf sx sy txa tya)
                      (sy + sNy * kOf sx sy txa tya)
                      (txa + tNx * kOf sx sy txa tya)
                      (tya + tNy * kOf sx sy txa tya) in
  route hypot_approx A B
  = if abs dy <=? abs dx
    then if 0 <=? dx
         then mk true (x A + w A) fy 1 0 (x B) ty (-1) 0
         else mk true (x A) fy (-1) 0 (x B + w B) ty 1 0
    else if 0 <=? dy
         then mk false fx (y A + h A) 0 1 tx (y B) 0 (-1)
         else mk false fx (y A) 0 (-1) tx (y B + h B) 0 1.
Proof.
  unfold route, centerOf, Math_abs, ge. cbv zeta.
  destruct (abs _ <=? abs _);
    [ destruct (0 <=? x B + w B / 2 - (x A + w A / 2))
    | destruct (0 <=? y B + h B / 2 - (y A + h A / 2)) ];
    reflexivity.
Qed.

End RoutingSymmetry.

(** X9: the classification of a link does not depend on its direction: the
    link from [B] to [A] is horizontal exactly when the link from [A] to [B]
    is, for all rectangles (NaN and infinite coordinates included). *)
Theorem classification_is_symmetric :
  forall (hypot_approx : float -> float -> float) (A B : Augest8.FlowNode),
    Augest8.horizontal (Augest8.route hypot_approx B A)
    = Augest8.horizontal (Augest8.route hypot_approx A B).
Proof.
  intros hypot_approx A B.
  pose proof (route_sides hypot_approx A B) as S1.
  pose proof (route_sides hypot_approx B A) as S2.
  cbv zeta in S1, S2.
  destruct S1 as (_ & _ & _ & _ & H1 & _).
  destruct S2 as (_ & _ & _ & _ & H2 & _).
  rewrite H1, H2. unfold Augest8.classify_horizontal, Augest8.center, Augest8.ge.
  cbv zeta. simpl fst; simpl snd.
  rewrite (abs_sub_swap (Augest8.x A + Augest8.w A / 2)
                        (Augest8.x B + Augest8.w B / 2)).
  rewrite (abs_sub_swap (Augest8.y A + Augest8.h A / 2)
                        (Augest8.y B + Augest8.h B / 2)).
  reflexivity.
Qed.

(** X10: a link and its reverse are drawn on the same curve. When the
    centres differ along the dominant axis (dx is not zero for a horizontal
    link, dy for a vertical one) and [Math.hypot] does not depend on the
    signs of its arguments, the link from [B] to [A] starts where the link
    from [A] to [B] ends, ends where it starts, has the same control
    distance, and has its two control points exchanged. *)
Theorem reverse_link_same_curve :
  forall (hypot_approx : float -> float -> float) (A B : Augest8.FlowNode),
    (forall a b, hypot_approx a b = hypot_approx (abs a) (abs b)) ->
    let r := Augest8.route hypot_approx A B in
    let r' := Augest8.route hypot_approx B A in
    let dx := (fst (Augest8.centerOf B) - fst (Augest8.centerOf A))%float in
    let dy := (snd (Augest8.centerOf B) - snd (Augest8.centerOf A))%float in
    (if Augest8.horizontal r
     then (dx <? 0)%float || (0 <? dx)%float
     else (dy <? 0)%float || (0 <? dy)%float) = true ->
    (Augest8.sx r', Augest8.sy r') = (Augest8.txa r, Augest8.tya r)
    /\ (Augest8.txa r', Augest8.tya r') = (Augest8.sx r, Augest8.sy r)
    /\ (Augest8.sNx r', Augest8.sNy r') = (Augest8.tNx r, Augest8.tNy r)
    /\ (Augest8.tNx r', Augest8.tNy r') = (Augest8.sNx r, Augest8.sNy r)
    /\ Augest8.dist r' = Augest8.dist r
    /\ Augest8.k r' = Augest8.k r
    /\ (Augest8.c1x r', Augest8.c1y r') = (Augest8.c2x r, Augest8.c2y r)
    /\ (Augest8.c2x r', Augest8.c2y r') = (Augest8.c1x r, Augest8.c1y r).
Proof.
  intros hypot_approx A B Heven r r' dx dy Hnz.
  assert (Hh : Augest8.horizontal r = (abs dy <=? abs dx)%float).
  { pose proof (route_sides hypot_approx A B) as S. cbv zeta in S.
    destruct S as (_ & _ & _ & _ & H & _). exact H. }
  rewrite Hh in Hnz. clear Hh.
  subst r r' dx dy. unfold Augest8.centerOf in Hnz.
  simpl fst in Hnz; simpl snd in Hnz.
  rewrite (route_cases hypot_approx A B), (route_cases hypot_approx B A).
  cbv zeta.
  set (fx := (Augest8.x A + Augest8.w A / 2)%float) in *.
  set (fy := (Augest8.y A + Augest8.h A / 2)%float) in *.
  set (tx := (Augest8.x B + Augest8.w B / 2)%float) in *.
  set (ty := (Augest8.y B + Augest8.h B / 2)%float) in *.
  rewrite (abs_sub_swap tx fx), (abs_sub_swap ty fy).
  destruct (abs (ty - fy) <=? abs (tx - fx))%float.
  - destruct (tx - fx <? 0)%float eqn:Neg.
    + rewrite (ltb_not_leb _ _ Neg).
      rewrite (ltb_leb _ _ (sub_swap_neg tx fx Neg)). simpl.
      rewrite (Math_hypot_swap hypot_approx Heven
                 (Augest8.x A) (Augest8.x B + Augest8.w B) fy ty).
      repeat split; reflexivity.
    + simpl in Hnz.
      rewrite (ltb_leb _ _ Hnz).
      rewrite (ltb_not_leb _ _ (sub_swap_pos tx fx Hnz)). simpl.
      rewrite (Math_hypot_swap hypot_approx Heven
                 (Augest8.x A + Augest8.w A) (Augest8.x B) fy ty).
      repeat split; reflexivity.
  - destruct (ty - fy <? 0)%float eqn:Neg.
    + rewrite (ltb_not_leb _ _ Neg).
      rewrite (ltb_leb _ _ (sub_swap_neg ty fy Neg)). simpl.
      rewrite (Math_hypot_swap hypot_approx Heven
                 fx tx (Augest8.y A) (Augest8.y B + Augest8.h B)).
      repeat split; reflexivity.
    + simpl in Hnz.
      rewrite (ltb_leb _ _ Hnz).
      rewrite (ltb_not_leb _ _ (sub_swap_pos ty fy Hnz)). simpl.
      rewrite (Math_hypot_swap hypot_approx Heven
                 fx tx (Augest8.y A + Augest8.h A) (Augest8.y B)).
      repeat split; reflexivity.
Qed.

(** X10 on the link from [macBypass] to [afxdp] of the canonical layout. *)
Lemma reverse_link_same_curve_witness :
  let A := Augest8.nodeOf Augest8.initialModel Augest8.macBypass in
  let B := Augest8.nodeOf Augest8.initialModel Augest8.afxdp in
  let r := Augest8.route Augest8.naive_hypot A B in
  let r' := Augest8.route Augest8.naive_hypot B A in
  (Augest8.sx r', Augest8.sy r') = (Augest8.txa r, Augest8.tya r)
  /\ (Augest8.txa r', Augest8.tya r') = (Augest8.sx r, Augest8.sy r)
  /\ (Augest8.sNx r', Augest8.sNy r') = (Augest8.tNx r, Augest8.tNy r)
  /\ (Augest8.tNx r', Augest8.tNy r') = (Augest8.sNx r, Augest8.sNy r)
  /\ Augest8.dist r' = Augest8.dist r
  /\ Augest8.k r' = Augest8.k r
  /\ (Augest8.c1x r', Augest8.c1y r') = (Augest8.c2x r, Augest8.c2y r)
  /\ (Augest8.c2x r', Augest8.c2y r') = (Augest8.c1x r, Augest8.c1y r).
Proof.
  intros A B.
  apply (reverse_link_same_curve Augest8.naive_hypot A B naive_hypot_even).
  vm_compute. reflexivity.
Defined.

(** Two rectangles with the same centre: the hypothesis of X10 is needed,
    for both directions leave through the right side. *)
Example coinciding_centres_not_reversed :
  Augest8.route Augest8.naive_hypot Augest8.exampleA Augest8.exampleA
  = Augest8.mkRoute true 156 188 1 0 0 188 (-1) 0 156 52 208 188 (-52) 188.
Proof. vm_compute. reflexivity. Qed.



(* ================================================================== *)
(** * Node badges *)
(* ================================================================== *)

(** The badges of the canonical layout. *)
Example canonical_badges :
  map (fun n => let b := Augest8.badge n in
                (Augest8.iconSize b, Augest8.circleRadius b, Augest8.labelY b))
      Augest8.initialNodes
  = [(120, 74, 282); (100, 64, 512); (100, 64, 512); (100, 64, 512);
     (100, 64, 512); (100, 64, 712); (100, 64, 512); (120, 74, 282)]%float.
Proof. vm_compute. reflexivity. Qed.

